(** * candidates/models/db.py: the review-reason aggregator and its companions

    A shallow embedding of [candidates.models.db]:
    - Python dicts are finite maps ([gmap]); a dict is compared by its
      contents, so map equality is the dict's [==];
    - a [LoggedAction] used as a dict key is identified by its primary key,
      as Django's [Model.__eq__] and [Model.__hash__] do;
    - code that may raise or touch the database runs in a small
      state-and-exception monad over the database tables. *)

From stdpp Require Import gmap strings list fin_maps pretty.
From Stdlib Require Import ZArith Lia Ascii.

Open Scope Z_scope.

(** ** Dicts with list values *)

Section dicts.
Context {K : Type} {EqK : EqDecision K} {CntK : Countable K}.

(** [d.get(k, dflt)] *)
Definition get {V : Type} (d : gmap K V) (k : K) (dflt : V) : V :=
  match d !! k with
  | Some v => v
  | None => dflt
  end.

(** [set(d.keys())] *)
Definition keys {V : Type} (d : gmap K V) : gset K := dom d.

(** <<
    def merge_dicts_with_list_values(dict_a, dict_b):
        return {
            k: dict_a.get(k, []) + dict_b.get(k, [])
            for k in set(dict_a.keys()) | set(dict_b.keys())
        }
    >> *)
Definition merge_dicts_with_list_values
    (dict_a dict_b : gmap K (list string)) : gmap K (list string) :=
  set_to_map (fun k => (k, get dict_a k [] ++ get dict_b k []))
             (keys dict_a ∪ keys dict_b).

(** [functools.reduce(function, iterable, initializer)] *)
Fixpoint reduce {A B : Type} (function : A -> B -> A)
    (iterable : list B) (initializer : A) : A :=
  match iterable with
  | [] => initializer
  | x :: rest => reduce function rest (function initializer x)
  end.

End dicts.

(** ** The data model *)

(** A [datetime] is a point on the time line, counted in microseconds (the
    resolution of Python's [datetime]); a [timedelta] is a difference of two. *)
Definition datetime := Z.

(** [timedelta(days=days)] *)
Definition timedelta (days : Z) : Z := days * 86400000000.

(** Foreign keys hold the primary key of the row they point to. *)
Module User.
Record t := { pk : Z; username : string }.
End User.

Module LoggedAction.
Record t := {
  pk : Z;
  user : option Z;
  person : option Z;
  action_type : string;
  popit_person_new_version : string;
  created : datetime;
  updated : datetime;
  ip_address : option string;
  source : string;
  note : option string;
  post : option Z
}.
End LoggedAction.

Module PersonRedirect.
Record t := { pk : Z; old_person_id : Z; new_person_id : Z }.
End PersonRedirect.

Module UserTermsAgreement.
Record t := { pk : Z; user : Z; assigned_to_dc : bool }.
End UserTermsAgreement.

(** The record store: one list of rows per table, in insertion order. *)
Record Database := {
  logged_actions : list LoggedAction.t;
  user_terms_agreements : list UserTermsAgreement.t
}.

(** ** Effects: database state and exceptions *)

Inductive Exception :=
| IntegrityError
| Raised (name : string).

(** A computation reads and may write the database, and either returns a
    value or raises; what it wrote before raising stays written. *)
Definition M (A : Type) : Type := Database -> (Exception + A) * Database.

#[export] Instance M_ret : MRet M := fun A (x : A) db => (inr x, db).

#[export] Instance M_bind : MBind M := fun A B (k : A -> M B) (c : M A) db =>
  match c db with
  | (inr x, db') => k x db'
  | (inl e, db') => (inl e, db')
  end.

Definition raise {A : Type} (e : Exception) : M A := fun db => (inl e, db).

(** [[body(x) for x in l]]: the elements are computed from left to right. *)
Fixpoint list_comprehension {A B : Type} (body : A -> M B) (l : list A)
    : M (list B) :=
  match l with
  | [] => mret []
  | x :: rest =>
      y ← body x;
      ys ← list_comprehension body rest;
      mret (y :: ys)
  end.

(** ** Querysets *)

(** A queryset is lazy: it is the list of conditions put on the table of
    logged actions, and its rows are read from the database when it is
    evaluated. *)
Inductive lookup :=
| created__gte (bound : datetime).

Definition QuerySet := list lookup.

Definition holds (r : LoggedAction.t) (l : lookup) : bool :=
  match l with
  | created__gte bound => bound <=? LoggedAction.created r
  end.

(** [self.filter(l)] is a new queryset, [self] is left as it was. *)
Definition qs_filter (self : QuerySet) (l : lookup) : QuerySet := self ++ [l].

(** The rows of a queryset in a database. *)
Definition evaluate (self : QuerySet) (db : Database) : list LoggedAction.t :=
  List.filter (fun r => forallb (holds r) self) (logged_actions db).

(** The identities of the records of a queryset. *)
Definition identities (self : QuerySet) (db : Database) : gset Z :=
  list_to_set (LoggedAction.pk <$> evaluate self db).

(** ** LoggedActionQuerySet *)

(** <<
    def in_recent_days(self, days=5):
        return self.filter(
            created__gte=(datetime.now() - timedelta(days=days)))
    >>
    [now] is the value [datetime.now()] returns; [days] is [None] when the
    caller leaves the argument out. *)
Definition in_recent_days (now : datetime) (self : QuerySet)
    (days : option Z) : QuerySet :=
  let days := default 5 days in
  qs_filter self (created__gte (now - timedelta days)).

Section needs_review.
Context {K : Type} {EqK : EqDecision K} {CntK : Countable K}.

(** A reason-function takes the queryset and returns a dict from records
    to reasons; being Python code it may raise and may touch the
    database. *)
Definition reason_fn : Type := QuerySet -> M (gmap K (list string)).

(** <<
    def needs_review(self):
        return reduce(
            merge_dicts_with_list_values,
            [f(self) for f in needs_review_fns],
            {}
        )
    >>
    [needs_review_fns] is imported from [candidates.models.needs_review];
    it is a parameter here. *)
Definition needs_review (needs_review_fns : list reason_fn)
    (self : QuerySet) : M (gmap K (list string)) :=
  results ← list_comprehension (fun f : reason_fn => f self) needs_review_fns;
  mret (reduce merge_dicts_with_list_values results ∅).

End needs_review.

(** ** The terms agreement of a user *)

(** The next value of the auto-incremented primary key. *)
Definition next_pk (rows : list UserTermsAgreement.t) : Z :=
  1 + foldr Z.max 0 (UserTermsAgreement.pk <$> rows).

Definition has_agreement (user : Z) (db : Database) : bool :=
  existsb (fun a => UserTermsAgreement.user a =? user)
          (user_terms_agreements db).

(** [UserTermsAgreement.objects.create(user=user)]: [assigned_to_dc] is not
    given and takes its default, [False]; [user] is a one-to-one field, so
    a second row for the same user is refused by the database. *)
Definition UserTermsAgreement_objects_create (user : User.t)
    : M UserTermsAgreement.t :=
  fun db =>
    if has_agreement (User.pk user) db then (inl IntegrityError, db)
    else
      let row := {| UserTermsAgreement.pk := next_pk (user_terms_agreements db);
                    UserTermsAgreement.user := User.pk user;
                    UserTermsAgreement.assigned_to_dc := false |} in
      (inr row,
       {| logged_actions := logged_actions db;
          user_terms_agreements := user_terms_agreements db ++ [row] |}).

(** <<
    def create_user_terms_agreement(sender, instance, created, **kwargs):
        if created:
            UserTermsAgreement.objects.create(user=instance)
    >>
    [sender] and [kwargs] are not used by the body. *)
Definition create_user_terms_agreement (instance : User.t) (created : bool)
    : M unit :=
  if created then
    _ ← UserTermsAgreement_objects_create instance;
    mret tt
  else mret tt.

(** ** Runs of the reason-functions *)

Section runs.
Context {K : Type} {EqK : EqDecision K} {CntK : Countable K}.

(** [calls self fns db results db']: called one after the other on [self],
    starting in [db], the functions [fns] all return, with [results], and
    leave the database [db']. *)
Inductive calls (self : QuerySet)
    : list (@reason_fn K _ _) -> Database -> list (gmap K (list string)) ->
      Database -> Prop :=
| calls_nil db : calls self [] db [] db
| calls_cons f fns m results db db1 db2 :
    f self db = (inr m, db1) ->
    calls self fns db1 results db2 ->
    calls self (f :: fns) db (m :: results) db2.


(** The reasons a list of result dicts gives for [k], in list order. *)
Definition reasons_in_order (results : list (gmap K (list string))) (k : K)
    : list string :=
  concat ((fun m => get m k []) <$> results).

End runs.

(** ** Sample data *)

Definition empty_db : Database :=
  {| logged_actions := []; user_terms_agreements := [] |}.

Definition dict_A : gmap string (list string) :=
  {[ "rec1"%string := ["missing source"%string] ]}.

Definition dict_B : gmap string (list string) :=
  {[ "rec1"%string := ["no note"%string];
     "rec2"%string := ["flagged IP"%string] ]}.

Definition dict_A_B : gmap string (list string) :=
  {[ "rec1"%string := ["missing source"%string; "no note"%string];
     "rec2"%string := ["flagged IP"%string] ]}.

Definition fn_A : @reason_fn string _ _ := fun _ => mret dict_A.

Definition fn_B : @reason_fn string _ _ := fun _ => mret dict_B.

Definition fn_broken : @reason_fn string _ _ :=
  fun _ => raise (Raised "ValueError").

Definition action_at (pk : Z) (created : datetime) : LoggedAction.t :=
  {| LoggedAction.pk := pk;
     LoggedAction.user := Some 1;
     LoggedAction.person := Some 10;
     LoggedAction.action_type := "person-update";
     LoggedAction.popit_person_new_version := "0123456789abcdef";
     LoggedAction.created := created;
     LoggedAction.updated := created;
     LoggedAction.ip_address := None;
     LoggedAction.source := "";
     LoggedAction.note := None;
     LoggedAction.post := None |}.

(** The clock of the samples, and two logged actions: one made six days
    before, one made one day before. *)
Definition sample_now : datetime := 1000 * 86400000000.

Definition old_action : LoggedAction.t :=
  action_at 1 (sample_now - timedelta 6).

Definition recent_action : LoggedAction.t :=
  action_at 2 (sample_now - timedelta 1).

Definition sample_db : Database :=
  {| logged_actions := [old_action; recent_action];
     user_terms_agreements := [] |}.

(** A reason-function that looks at the whole table of logged actions
    instead of the queryset it is given, and flags every row without a
    source. *)
Definition fn_whole_table : @reason_fn Z _ _ :=
  fun _ db =>
    (inr (list_to_map
            ((fun r => (LoggedAction.pk r, ["no source"%string])) <$>
             List.filter (fun r => String.eqb (LoggedAction.source r) "")
                         (logged_actions db))),
     db).

(** A reason-function that flags the rows of its queryset without a
    source. *)
Definition fn_no_source : @reason_fn Z _ _ :=
  fun self db =>
    (inr (list_to_map
            ((fun r => (LoggedAction.pk r, ["no source"%string])) <$>
             List.filter (fun r => String.eqb (LoggedAction.source r) "")
                         (evaluate self db))),
     db).

(** The actions of the last five days, by the clock of the samples. *)
Definition sample_recent : QuerySet := in_recent_days sample_now [] None.

Definition alice : User.t := {| User.pk := 7; User.username := "alice" |}.

(** ** More sample data *)



(** A reason-function that flags a record and gives no reason for it. *)
Definition dict_E : gmap string (list string) := {[ "rec4"%string := [] ]}.

Definition fn_E : @reason_fn string _ _ := fun _ => mret dict_E.

(** A dict that shares no key with [dict_A], and a database where [alice]
    has her agreement. *)
Definition dict_C : gmap string (list string) :=
  {[ "rec3"%string := ["edit from new account"%string] ]}.

Definition db_with_alice : Database :=
  {| logged_actions := [];
     user_terms_agreements :=
       [{| UserTermsAgreement.pk := 1;
           UserTermsAgreement.user := 7;
           UserTermsAgreement.assigned_to_dc := true |}] |}.

Definition bob : User.t := {| User.pk := 8; User.username := "bob" |}.

(** ** The subject of a logged action *)

(** The rows a logged action points to.  [Person] and [Post] are popolo's
    models; only the fields [subject_url] and [subject_html] read are
    kept.  [post.extra] is the extra row of a post, [None] when there is
    none, and [extra.elections] are the elections of the post. *)
Module Election.
Record t := { slug : string; current : bool }.
End Election.

Module PostExtra.
Record t := {
  slug : string;
  short_label : string;
  elections : list Election.t
}.
End PostExtra.

Module Post.
Record t := { pk : Z; extra : option PostExtra.t }.
End Post.

Module Person.
Record t := { id : Z; name : string }.
End Person.

(** Computations that only read: a value or an exception. *)
#[export] Instance exn_ret : MRet (sum Exception) := fun A (x : A) => inr x.

#[export] Instance exn_bind : MBind (sum Exception) :=
  fun A B (k : A -> Exception + B) (c : Exception + A) =>
    match c with
    | inr x => k x
    | inl e => inl e
    end.

(** [post.extra]: reading the extra row of a post that has none raises. *)
Definition post_extra (post : Post.t) : Exception + PostExtra.t :=
  match Post.extra post with
  | Some extra => inr extra
  | None => inl (Raised "RelatedObjectDoesNotExist")
  end.

(** [elections.get(current=True)]: the one current election; it raises
    when there is none and when there are several. *)
Definition elections_get_current (elections : list Election.t)
    : Exception + Election.t :=
  match List.filter Election.current elections with
  | [] => inl (Raised "DoesNotExist")
  | [election] => inr election
  | _ :: _ :: _ => inl (Raised "MultipleObjectsReturned")
  end.

(** The values of the keyword arguments given to [reverse]. *)
Inductive kwarg :=
| kw_str (s : string)
| kw_int (n : Z).

(** The double-quote character, and how [format] writes [None]. *)
Definition dquote : string := String "034"%char EmptyString.

Definition format_value (v : option string) : string :=
  match v with
  | Some s => s
  | None => "None"
  end.

Section subject.
(** [reverse] (Django's URL resolver, which raises when no URL matches) and
    [slugify] are imported; [post_of] and [person_of] give the row a
    foreign key points to. *)
Variable reverse : string -> gmap string kwarg -> Exception + string.
Variable slugify : string -> string.
Variable post_of : Z -> Post.t.
Variable person_of : Z -> Person.t.

(** <<
    @property
    def subject_url(self):
        if self.post:
            election = self.post.extra.elections.get(current=True)
            return reverse('constituency', kwargs={
                'election': election.slug,
                'post_id': self.post.extra.slug,
                'ignored_slug': slugify(self.post.extra.short_label),
            })
        elif self.person:
            return reverse('person-view', kwargs={'person_id': self.person.id})
        return None
    >> *)
Definition subject_url (self : LoggedAction.t) : Exception + option string :=
  match LoggedAction.post self with
  | Some post_id =>
      extra ← post_extra (post_of post_id);
      election ← elections_get_current (PostExtra.elections extra);
      url ← reverse "constituency"
              {[ "election"%string := kw_str (Election.slug election);
                 "post_id"%string := kw_str (PostExtra.slug extra);
                 "ignored_slug"%string :=
                   kw_str (slugify (PostExtra.short_label extra)) ]};
      mret (Some url)
  | None =>
      match LoggedAction.person self with
      | Some person_id =>
          url ← reverse "person-view"
                  {[ "person_id"%string :=
                       kw_int (Person.id (person_of person_id)) ]};
          mret (Some url)
      | None => mret None
      end
  end.

(** <<
    @property
    def subject_html(self):
        if self.post:
            return '<a href="{url}">{text} ({post_slug})</a>'.format(
                url=self.subject_url,
                text=self.post.extra.short_label,
                post_slug=self.post.extra.slug,
            )
        elif self.person:
            return '<a href="{url}">{text} ({person_id})</a>'.format(
                url=self.subject_url,
                text=self.person.name,
                person_id=self.person.id)
        return ''
    >> *)
Definition subject_html (self : LoggedAction.t) : Exception + string :=
  match LoggedAction.post self with
  | Some post_id =>
      url ← subject_url self;
      extra ← post_extra (post_of post_id);
      mret ("<a href=" +:+ dquote +:+ format_value url +:+ dquote +:+ ">" +:+
            PostExtra.short_label extra +:+ " (" +:+ PostExtra.slug extra +:+
            ")</a>")
  | None =>
      match LoggedAction.person self with
      | Some person_id =>
          url ← subject_url self;
          let person := person_of person_id in
          mret ("<a href=" +:+ dquote +:+ format_value url +:+ dquote +:+
                ">" +:+ Person.name person +:+ " (" +:+
                pretty (Person.id person) +:+ ")</a>")
      | None => mret ""
      end
  end.

End subject.

(** Sample data for the subject: a resolver with the two URL patterns, a
    post with one current election, and a person. *)
Definition sample_reverse (viewname : string) (kwargs : gmap string kwarg)
    : Exception + string :=
  if String.eqb viewname "person-view" then
    match kwargs !! "person_id"%string with
    | Some (kw_int n) => inr ("/person/" +:+ pretty n)
    | _ => inl (Raised "NoReverseMatch")
    end
  else if String.eqb viewname "constituency" then
    match kwargs !! "election"%string, kwargs !! "post_id"%string,
          kwargs !! "ignored_slug"%string with
    | Some (kw_str e), Some (kw_str p), Some (kw_str s) =>
        inr ("/election/" +:+ e +:+ "/post/" +:+ p +:+ "/" +:+ s)
    | _, _, _ => inl (Raised "NoReverseMatch")
    end
  else inl (Raised "NoReverseMatch").

Definition sample_slugify (s : string) : string := s.

Definition sample_extra : PostExtra.t :=
  {| PostExtra.slug := "65808";
     PostExtra.short_label := "dulwich";
     PostExtra.elections :=
       [ {| Election.slug := "2010"; Election.current := false |};
         {| Election.slug := "2015"; Election.current := true |} ] |}.

Definition sample_post_of (post_id : Z) : Post.t :=
  {| Post.pk := post_id; Post.extra := Some sample_extra |}.

Definition sample_person_of (person_id : Z) : Person.t :=
  {| Person.id := person_id; Person.name := "Tessa Jowell" |}.

(** An action on a person, and the same action with a post as well. *)
Definition person_action : LoggedAction.t := action_at 3 sample_now.

Definition post_action : LoggedAction.t :=
  {| LoggedAction.pk := 4;
     LoggedAction.user := Some 1;
     LoggedAction.person := Some 10;
     LoggedAction.action_type := "constituency-lock";
     LoggedAction.popit_person_new_version := "";
     LoggedAction.created := sample_now;
     LoggedAction.updated := sample_now;
     LoggedAction.ip_address := None;
     LoggedAction.source := "";
     LoggedAction.note := None;
     LoggedAction.post := Some 20 |}.

(** Another action on the same post, by another user and on no person. *)
Definition other_post_action : LoggedAction.t :=
  {| LoggedAction.pk := 5;
     LoggedAction.user := Some 2;
     LoggedAction.person := None;
     LoggedAction.action_type := "constituency-unlock";
     LoggedAction.popit_person_new_version := "";
     LoggedAction.created := sample_now;
     LoggedAction.updated := sample_now;
     LoggedAction.ip_address := None;
     LoggedAction.source := "";
     LoggedAction.note := None;
     LoggedAction.post := Some 20 |}.

(** A post none of whose elections is current any more. *)
Definition stale_extra : PostExtra.t :=
  {| PostExtra.slug := "65808";
     PostExtra.short_label := "dulwich";
     PostExtra.elections :=
       [ {| Election.slug := "2010"; Election.current := false |} ] |}.

Definition stale_post_of (post_id : Z) : Post.t :=
  {| Post.pk := post_id; Post.extra := Some stale_extra |}.

(** ** The trailing window, with the range of Python's dates *)

(** Python's [datetime] runs from [datetime.min], the first instant of the
    year 1, to [datetime.max], the last microsecond of the year 9999, and a
    [timedelta] holds at most 999999999 days either way; arithmetic that
    leaves these ranges raises [OverflowError].  Time is counted from
    [datetime.min]. *)
Definition datetime_max : datetime := 3652059 * 86400000000 - 1.

(** [timedelta(days=days)] *)
Definition timedelta_of_days (days : Z) : Exception + Z :=
  if (-999999999 <=? days) && (days <=? 999999999) then inr (timedelta days)
  else inl (Raised "OverflowError").

(** [t - delta] *)
Definition datetime_sub (t : datetime) (delta : Z) : Exception + datetime :=
  if (0 <=? t - delta) && (t - delta <=? datetime_max) then inr (t - delta)
  else inl (Raised "OverflowError").

(** [LoggedActionQuerySet.in_recent_days] with these checks: the queryset
    it returns, or the [OverflowError] of the date arithmetic. *)
Definition LoggedActionQuerySet_in_recent_days (now : datetime)
    (self : QuerySet) (days : option Z) : Exception + QuerySet :=
  let days := default 5 days in
  delta ← timedelta_of_days days;
  bound ← datetime_sub now delta;
  mret (qs_filter self (created__gte bound)).

(** ** Lemmas on the merge *)

Section dict_lemmas.
Context {K : Type} {EqK : EqDecision K} {CntK : Countable K}.
Implicit Types (a b c m : gmap K (list string)) (k : K).

Lemma get_Some {V} (d : gmap K V) k dflt v :
  d !! k = Some v -> get d k dflt = v.
Proof. unfold get. by intros ->. Qed.

Lemma get_None {V} (d : gmap K V) k dflt :
  d !! k = None -> get d k dflt = dflt.
Proof. unfold get. by intros ->. Qed.

Lemma merge_lookup_Some a b k l :
  merge_dicts_with_list_values a b !! k = Some l <->
  k ∈ keys a ∪ keys b /\ l = get a k [] ++ get b k [].
Proof.
  unfold merge_dicts_with_list_values.
  rewrite lookup_set_to_map; [| by intros y y' _ _ ?].
  split.
  - intros (y & Hy & Heq). by simplify_eq.
  - intros [Hk ->]. by exists k.
Qed.

Lemma merge_lookup_in a b k :
  k ∈ keys a ∪ keys b ->
  merge_dicts_with_list_values a b !! k = Some (get a k [] ++ get b k []).
Proof. intros Hk. by apply merge_lookup_Some. Qed.

Lemma merge_lookup_None a b k :
  merge_dicts_with_list_values a b !! k = None <-> k ∉ keys a ∪ keys b.
Proof.
  split.
  - intros Hn Hk. apply merge_lookup_in in Hk. congruence.
  - intros Hk. apply eq_None_not_Some. intros [l Hl].
    apply merge_lookup_Some in Hl. tauto.
Qed.

Lemma merge_keys a b :
  keys (merge_dicts_with_list_values a b) = keys a ∪ keys b.
Proof.
  apply set_eq. intros k. unfold keys at 1. rewrite elem_of_dom. split.
  - intros [l Hl]. by apply merge_lookup_Some in Hl as [? _].
  - intros Hk. eexists. by apply merge_lookup_in.
Qed.

Lemma get_absent {V} (d : gmap K V) k dflt :
  k ∉ keys d -> get d k dflt = dflt.
Proof. unfold keys. rewrite not_elem_of_dom. apply get_None. Qed.

(** Reading the merge with [get] never needs a case split on the key. *)
Lemma merge_get a b k :
  get (merge_dicts_with_list_values a b) k [] = get a k [] ++ get b k [].
Proof.
  destruct (decide (k ∈ keys a ∪ keys b)) as [Hk | Hk].
  - by rewrite (get_Some _ _ _ _ (merge_lookup_in _ _ _ Hk)).
  - rewrite get_None by by apply merge_lookup_None.
    rewrite !get_absent by set_solver. done.
Qed.

Lemma keys_empty {V} : keys (∅ : gmap K V) = ∅.
Proof. unfold keys. apply dom_empty_L. Qed.

Lemma get_empty {V} k (dflt : V) : get (∅ : gmap K V) k dflt = dflt.
Proof. by apply get_None. Qed.

Lemma get_in_keys {V} (d : gmap K V) k dflt :
  k ∈ keys d -> d !! k = Some (get d k dflt).
Proof.
  unfold keys. rewrite elem_of_dom. intros [v Hv].
  by rewrite (get_Some _ _ _ _ Hv).
Qed.

(** Two dicts with the same keys and the same [get] are equal. *)
Lemma dict_eq a b :
  keys a = keys b -> (forall k, get a k [] = get b k []) -> a = b.
Proof.
  intros Hkeys Hget. apply map_eq. intros k.
  destruct (decide (k ∈ keys a)) as [Hk | Hk].
  - rewrite (get_in_keys a k [] Hk).
    rewrite Hkeys in Hk. rewrite (get_in_keys b k [] Hk). by rewrite Hget.
  - assert (k ∉ keys b) as Hk' by by rewrite <- Hkeys.
    unfold keys in Hk, Hk'. apply not_elem_of_dom in Hk, Hk'. congruence.
Qed.

Lemma merge_empty_r m : merge_dicts_with_list_values m ∅ = m.
Proof.
  apply dict_eq.
  - rewrite merge_keys, keys_empty. apply union_empty_r_L.
  - intros k. by rewrite merge_get, get_empty, app_nil_r.
Qed.

Lemma merge_empty_l m : merge_dicts_with_list_values ∅ m = m.
Proof.
  apply dict_eq.
  - rewrite merge_keys, keys_empty. apply union_empty_l_L.
  - intros k. by rewrite merge_get, get_empty.
Qed.

Lemma merge_assoc a b c :
  merge_dicts_with_list_values a (merge_dicts_with_list_values b c) =
  merge_dicts_with_list_values (merge_dicts_with_list_values a b) c.
Proof.
  apply dict_eq.
  - rewrite !merge_keys. apply (assoc_L (∪)).
  - intros k. by rewrite !merge_get, app_assoc.
Qed.

End dict_lemmas.

(** ** Lemmas on folding the merge *)

Section reduce_lemmas.
Context {K : Type} {EqK : EqDecision K} {CntK : Countable K}.
Implicit Types (m init : gmap K (list string)) (k : K).
Implicit Types (results : list (gmap K (list string))).

Lemma reduce_app {A B} (f : A -> B -> A) (l1 l2 : list B) (x : A) :
  reduce f (l1 ++ l2) x = reduce f l2 (reduce f l1 x).
Proof. revert x. induction l1 as [| y l1 IH]; intros x; simpl; [done | apply IH]. Qed.

Lemma reduce_merge_get results init k :
  get (reduce merge_dicts_with_list_values results init) k [] =
  get init k [] ++ reasons_in_order results k.
Proof.
  unfold reasons_in_order. revert init.
  induction results as [| m results IH]; intros init; simpl.
  - by rewrite app_nil_r.
  - by rewrite IH, merge_get, app_assoc.
Qed.

Lemma reduce_merge_keys results init k :
  k ∈ keys (reduce merge_dicts_with_list_values results init) <->
  k ∈ keys init \/ exists m, m ∈ results /\ k ∈ keys m.
Proof.
  revert init. induction results as [| m results IH]; intros init; simpl.
  - split; [by left |]. intros [Hk | (m & Hm & _)]; [done |].
    by apply elem_of_nil in Hm.
  - rewrite IH, merge_keys, elem_of_union. split.
    + intros [[Hk | Hk] | (m' & Hm' & Hk)].
      * by left.
      * right. exists m. split; [apply list_elem_of_here | done].
      * right. exists m'. split; [by apply list_elem_of_further | done].
    + intros [Hk | (m' & Hm' & Hk)].
      * left. by left.
      * apply elem_of_cons in Hm' as [-> | Hm'].
        -- left. by right.
        -- right. by exists m'.
Qed.

(** Folding from [init] is merging [init] with the fold from the empty dict. *)
Lemma reduce_merge_init results init :
  reduce merge_dicts_with_list_values results init =
  merge_dicts_with_list_values init
    (reduce merge_dicts_with_list_values results ∅).
Proof.
  revert init. induction results as [| m results IH]; intros init; simpl.
  - by rewrite merge_empty_r.
  - rewrite (IH (merge_dicts_with_list_values init m)).
    rewrite (IH (merge_dicts_with_list_values ∅ m)).
    by rewrite merge_empty_l, merge_assoc.
Qed.

Lemma reasons_in_order_app (l1 l2 : list (gmap K (list string))) k :
  reasons_in_order (l1 ++ l2) k =
  reasons_in_order l1 k ++ reasons_in_order l2 k.
Proof. unfold reasons_in_order. by rewrite fmap_app, concat_app. Qed.

Lemma reasons_in_order_cons m results k :
  reasons_in_order (m :: results) k = get m k [] ++ reasons_in_order results k.
Proof. done. Qed.

(** The reasons of an earlier result come before those of a later one. *)
Lemma reasons_in_order_earlier results (i j : nat) mi mj k :
  (i < j)%nat -> results !! i = Some mi -> results !! j = Some mj ->
  exists before between after,
    reasons_in_order results k =
    before ++ get mi k [] ++ between ++ get mj k [] ++ after.
Proof.
  intros Hij Hi Hj.
  rewrite <- (take_drop_middle results i mi Hi).
  assert (drop (S i) results !! (j - S i)%nat = Some mj) as Hj'.
  { rewrite lookup_drop. rewrite <- Hj. f_equal. lia. }
  rewrite <- (take_drop_middle _ _ mj Hj').
  exists (reasons_in_order (take i results) k),
         (reasons_in_order (take (j - S i) (drop (S i) results)) k),
         (reasons_in_order (drop (S (j - S i)) (drop (S i) results)) k).
  by rewrite reasons_in_order_app, reasons_in_order_cons,
             reasons_in_order_app, reasons_in_order_cons.
Qed.

End reduce_lemmas.

(** ** Lemmas on the monad and on runs *)

Lemma bind_run {A B} (c : M A) (k : A -> M B) db :
  (x ← c; k x) db =
  match c db with
  | (inr x, db') => k x db'
  | (inl e, db') => (inl e, db')
  end.
Proof. done. Qed.

Lemma exn_bind_run {A B} (c : Exception + A) (k : A -> Exception + B) :
  (x ← c; k x) =
  match c with
  | inr x => k x
  | inl e => inl e
  end.
Proof. done. Qed.

Section run_lemmas.
Context {K : Type} {EqK : EqDecision K} {CntK : Countable K}.
Implicit Types (fns : list (@reason_fn K _ _)) (self : QuerySet).
Implicit Types (results : list (gmap K (list string))) (db : Database).

Lemma list_comprehension_cons self f fns db :
  list_comprehension (fun f : reason_fn => f self) (f :: fns) db =
  match f self db with
  | (inr m, db1) =>
      match list_comprehension (fun f : reason_fn => f self) fns db1 with
      | (inr results, db2) => (inr (m :: results), db2)
      | (inl e, db2) => (inl e, db2)
      end
  | (inl e, db1) => (inl e, db1)
  end.
Proof.
  simpl. rewrite bind_run. destruct (f self db) as [[e | m] db1]; [done |].
  rewrite bind_run. by destruct (list_comprehension _ fns db1) as [[e | r] db2].
Qed.

Lemma calls_list_comprehension self fns db results db' :
  calls self fns db results db' <->
  list_comprehension (fun f : reason_fn => f self) fns db = (inr results, db').
Proof.
  split.
  - induction 1 as [db | f fns m results db db1 db2 Hf _ IH]; [done |].
    by rewrite list_comprehension_cons, Hf, IH.
  - revert db results. induction fns as [| f fns IH]; intros db results Hrun.
    + inversion Hrun; subst. constructor.
    + rewrite list_comprehension_cons in Hrun.
      destruct (f self db) as [[e | m] db1] eqn:Hf; [done |].
      destruct (list_comprehension _ fns db1) as [[e | r] db2] eqn:Hrest;
        [done |].
      inversion Hrun; subst. econstructor; [done | by apply IH].
Qed.

Lemma list_comprehension_raises self fns db e db' :
  list_comprehension (fun f : reason_fn => f self) fns db = (inl e, db') <->
  exists before f after results db1,
    fns = before ++ f :: after /\
    calls self before db results db1 /\
    f self db1 = (inl e, db').
Proof.
  split.
  - revert db. induction fns as [| f fns IH]; intros db Hrun; [done |].
    rewrite list_comprehension_cons in Hrun.
    destruct (f self db) as [[e1 | m] db1] eqn:Hf.
    + inversion Hrun; subst.
      exists [], f, fns, [], db. split; [done |]. split; [constructor | done].
    + destruct (list_comprehension _ fns db1) as [[e2 | r] db2] eqn:Hrest;
        [| done].
      inversion Hrun; subst.
      destruct (IH db1 Hrest) as (before & g & after & results & db3 & -> & Hc & Hg).
      exists (f :: before), g, after, (m :: results), db3.
      split; [done |]. split; [by econstructor | done].
  - intros (before & f & after & results & db1 & -> & Hc & Hf).
    induction Hc as [db | g fns m results db db1 db2 Hg _ IH].
    + simpl app. by rewrite list_comprehension_cons, Hf.
    + simpl app. rewrite list_comprehension_cons, Hg. by rewrite (IH Hf).
Qed.

Lemma needs_review_run self fns db :
  needs_review fns self db =
  match list_comprehension (fun f : reason_fn => f self) fns db with
  | (inr results, db') =>
      (inr (reduce merge_dicts_with_list_values results ∅), db')
  | (inl e, db') => (inl e, db')
  end.
Proof.
  unfold needs_review. rewrite bind_run.
  by destruct (list_comprehension _ fns db) as [[e | r] db'].
Qed.

Lemma needs_review_calls self fns db results db' :
  calls self fns db results db' ->
  needs_review fns self db =
  (inr (reduce merge_dicts_with_list_values results ∅), db').
Proof.
  intros Hc. apply calls_list_comprehension in Hc.
  by rewrite needs_review_run, Hc.
Qed.


End run_lemmas.

(** ** The merge of two dicts *)

Section merge_claims.
Context {K : Type} {EqK : EqDecision K} {CntK : Countable K}.
Implicit Types (a b c m : gmap K (list string)) (k : K).

(** C1. The merge of [dict_a] and [dict_b] has exactly the keys of
    [dict_a] or [dict_b]; at each of them its value is [dict_a]'s list
    (empty if the key is not in [dict_a]) followed by [dict_b]'s list
    (empty if the key is not in [dict_b]); a key of neither is not in the
    merge. *)
Theorem merge_dicts_with_list_values_spec (dict_a dict_b : gmap K (list string)) :
  keys (merge_dicts_with_list_values dict_a dict_b) = keys dict_a ∪ keys dict_b /\
  forall k,
    merge_dicts_with_list_values dict_a dict_b !! k =
    if decide (k ∈ keys dict_a ∪ keys dict_b)
    then Some (get dict_a k [] ++ get dict_b k [])
    else None.
Proof.
  split; [apply merge_keys |].
  intros k. case_decide as Hk.
  - by apply merge_lookup_in.
  - by apply merge_lookup_None.
Qed.

(** C4. Merging a dict with the empty dict, on either side, gives the dict
    back. *)
Theorem merge_dicts_with_empty m :
  merge_dicts_with_list_values m ∅ = m /\
  merge_dicts_with_list_values ∅ m = m.
Proof. split; [apply merge_empty_r | apply merge_empty_l]. Qed.

(** C10. The merge is associative, so the fold of a list of dicts does not
    depend on how the merges are grouped: the fold of a concatenation is
    the merge of the two folds, and folding from the left (as [reduce]
    does) gives the same dict as folding from the right. *)
Theorem merge_dicts_with_list_values_assoc :
  (forall a b c,
     merge_dicts_with_list_values a (merge_dicts_with_list_values b c) =
     merge_dicts_with_list_values (merge_dicts_with_list_values a b) c) /\
  (forall l1 l2 : list (gmap K (list string)),
     reduce merge_dicts_with_list_values (l1 ++ l2) ∅ =
     merge_dicts_with_list_values
       (reduce merge_dicts_with_list_values l1 ∅)
       (reduce merge_dicts_with_list_values l2 ∅)) /\
  (forall l : list (gmap K (list string)),
     reduce merge_dicts_with_list_values l ∅ =
     foldr merge_dicts_with_list_values ∅ l).
Proof.
  split; [apply merge_assoc |]. split.
  - intros l1 l2. by rewrite reduce_app, reduce_merge_init.
  - induction l as [| m l IH]; [done |].
    simpl. rewrite reduce_merge_init, merge_empty_l. by rewrite IH.
Qed.

End merge_claims.

(** ** The aggregation *)

Lemma reduce_foldl {A B} (f : A -> B -> A) (l : list B) (x : A) :
  reduce f l x = foldl f x l.
Proof. revert x. induction l as [| y l IH]; intros x; simpl; [done | apply IH]. Qed.

Section needs_review_claims.
Context {K : Type} {EqK : EqDecision K} {CntK : Countable K}.
Implicit Types (fns : list (@reason_fn K _ _)) (self : QuerySet).
Implicit Types (results : list (gmap K (list string))) (db : Database).

(** C2. When the reason-functions, called in list order on the queryset,
    return the dicts [results], [needs_review] returns the left fold of the
    merge over [results] from the empty dict; the value of each of its keys
    is the concatenation, in list order, of the reasons the functions gave
    for that key, so the reasons of an earlier function come before those
    of a later one. *)
Theorem needs_review_folds_in_order self fns db results db' :
  calls self fns db results db' ->
  needs_review fns self db =
    (inr (foldl merge_dicts_with_list_values ∅ results), db') /\
  (forall k,
     k ∈ keys (foldl merge_dicts_with_list_values ∅ results) ->
     foldl merge_dicts_with_list_values ∅ results !! k =
     Some (reasons_in_order results k)) /\
  (forall k (i j : nat) mi mj,
     (i < j)%nat -> results !! i = Some mi -> results !! j = Some mj ->
     exists before between after,
       get (foldl merge_dicts_with_list_values ∅ results) k [] =
       before ++ get mi k [] ++ between ++ get mj k [] ++ after).
Proof.
  intros Hc. rewrite <- reduce_foldl. split; [by apply needs_review_calls |].
  split.
  - intros k Hk. rewrite (get_in_keys _ k [] Hk).
    by rewrite reduce_merge_get, get_empty.
  - intros k i j mi mj Hij Hi Hj.
    rewrite reduce_merge_get, get_empty. simpl.
    by apply (reasons_in_order_earlier results i j).
Qed.

(** C8. [needs_review] raises [e] exactly when, the functions before it
    having returned, some reason-function raises [e]: the error and the
    database are those the function left, no dict is returned, and the
    functions after it are not called. *)
Theorem needs_review_propagates_error self fns db e db' :
  needs_review fns self db = (inl e, db') <->
  exists before f after results db1,
    fns = before ++ f :: after /\
    calls self before db results db1 /\
    f self db1 = (inl e, db').
Proof.
  rewrite <- list_comprehension_raises, needs_review_run.
  destruct (list_comprehension _ fns db) as [[e1 | r] db1];
    split; intros Heq; inversion Heq; reflexivity.
Qed.


End needs_review_claims.


(** C3 as the specification states it fails: a reason-function may flag a
    record that is not in the queryset.  Here the queryset holds the
    actions of the last five days, and the function flags an older row. *)
Lemma needs_review_keys_outside_queryset :
  exists r,
    needs_review [fn_whole_table] sample_recent sample_db = (inr r, sample_db) /\
    ~ keys r ⊆ identities sample_recent sample_db.
Proof.
  eexists. split; [reflexivity |].
  intros Hsub. specialize (Hsub 1).
  assert (1 ∉ identities sample_recent sample_db) as Hnot.
  { vm_compute. intros Hin. set_solver. }
  apply Hnot, Hsub. unfold keys. apply elem_of_dom. by eexists.
Qed.

(** C3, amended. When the reason-functions return the dicts [results], a
    key is in the dict [needs_review] returns if and only if it is in one
    of [results]; and if every key of [results] is the identity of a record
    of the queryset, so is every key of the returned dict. *)
Theorem needs_review_keys self (fns : list (@reason_fn Z _ _)) db results db' :
  calls self fns db results db' ->
  exists r,
    needs_review fns self db = (inr r, db') /\
    (forall k, k ∈ keys r <-> exists m, m ∈ results /\ k ∈ keys m) /\
    ((forall m, m ∈ results -> keys m ⊆ identities self db) ->
     keys r ⊆ identities self db).
Proof.
  intros Hc. eexists. split; [by apply needs_review_calls |].
  assert (forall k,
    k ∈ keys (reduce merge_dicts_with_list_values results ∅) <->
    exists m, m ∈ results /\ k ∈ keys m) as Hkeys.
  { intros k. rewrite reduce_merge_keys, keys_empty. split.
    - intros [Hk | Hk]; [by apply not_elem_of_empty in Hk | done].
    - intros Hk. by right. }
  split; [done |].
  intros Hin k Hk. apply Hkeys in Hk as (m & Hm & Hk). by apply (Hin m).
Qed.

(** C5. If [A] returns [{"rec1": ["missing source"]}] and [B] returns
    [{"rec1": ["no note"], "rec2": ["flagged IP"]}], the aggregation with
    the list [[A, B]] returns
    [{"rec1": ["missing source", "no note"], "rec2": ["flagged IP"]}]. *)
Theorem needs_review_scenario (A B : @reason_fn string _ _) self db db1 db2 :
  A self db = (inr {[ "rec1"%string := ["missing source"%string] ]}, db1) ->
  B self db1 = (inr {[ "rec1"%string := ["no note"%string];
                       "rec2"%string := ["flagged IP"%string] ]}, db2) ->
  needs_review [A; B] self db =
  (inr {[ "rec1"%string := ["missing source"%string; "no note"%string];
          "rec2"%string := ["flagged IP"%string] ]}, db2).
Proof.
  intros HA HB.
  pose proof (calls_cons self A [B] _ _ db db1 db2 HA
                (calls_cons self B [] _ _ db1 db2 db2 HB (calls_nil self db2)))
    as Hc.
  etrans; [exact (needs_review_calls _ _ _ _ _ Hc) | reflexivity].
Qed.

(** ** The trailing window *)

Lemma evaluate_qs_filter self l db :
  evaluate (qs_filter self l) db =
  List.filter (fun r => holds r l) (evaluate self db).
Proof.
  unfold evaluate, qs_filter.
  induction (logged_actions db) as [| r rows IH]; [done |].
  simpl. rewrite forallb_app. simpl. rewrite andb_true_r.
  destruct (forallb (holds r) self); simpl; [| exact IH].
  destruct (holds r l); by rewrite IH.
Qed.

Lemma evaluate_in_recent_days now self days db :
  evaluate (in_recent_days now self days) db =
  List.filter
    (fun r => now - timedelta (default 5 days) <=? LoggedAction.created r)
    (evaluate self db).
Proof. unfold in_recent_days. by rewrite evaluate_qs_filter. Qed.

Lemma elem_of_in_recent_days now self days db r :
  r ∈ evaluate (in_recent_days now self days) db <->
  r ∈ evaluate self db /\
  now - timedelta (default 5 days) <= LoggedAction.created r.
Proof.
  rewrite evaluate_in_recent_days, !list_elem_of_In, filter_In.
  by rewrite Z.leb_le.
Qed.

(** C6. With [days] left to its default, [in_recent_days] keeps exactly the
    records of the queryset created at or after [now] minus five days, in
    the order they had; a record created six days before [now] is left
    out, and a record of the queryset created one day before [now] is
    kept. *)
Theorem in_recent_days_default now self db :
  evaluate (in_recent_days now self None) db =
    List.filter (fun r => now - timedelta 5 <=? LoggedAction.created r)
                (evaluate self db) /\
  (forall r,
     r ∈ evaluate (in_recent_days now self None) db <->
     r ∈ evaluate self db /\ now - timedelta 5 <= LoggedAction.created r) /\
  (forall r,
     LoggedAction.created r = now - timedelta 6 ->
     r ∉ evaluate (in_recent_days now self None) db) /\
  (forall r,
     r ∈ evaluate self db ->
     LoggedAction.created r = now - timedelta 1 ->
     r ∈ evaluate (in_recent_days now self None) db).
Proof.
  split; [apply evaluate_in_recent_days |].
  split; [intros r; apply elem_of_in_recent_days |].
  split.
  - intros r Hr Hin. apply elem_of_in_recent_days in Hin as [_ Hle].
    simpl in Hle. unfold timedelta in *. lia.
  - intros r Hin Hr. apply elem_of_in_recent_days. split; [done |].
    simpl. unfold timedelta in *. lia.
Qed.

(** ** The hook on saving a user *)

Lemma create_agreement_fresh instance db :
  has_agreement (User.pk instance) db = false ->
  UserTermsAgreement_objects_create instance db =
  (inr {| UserTermsAgreement.pk := next_pk (user_terms_agreements db);
          UserTermsAgreement.user := User.pk instance;
          UserTermsAgreement.assigned_to_dc := false |},
   {| logged_actions := logged_actions db;
      user_terms_agreements :=
        user_terms_agreements db ++
        [{| UserTermsAgreement.pk := next_pk (user_terms_agreements db);
            UserTermsAgreement.user := User.pk instance;
            UserTermsAgreement.assigned_to_dc := false |}] |}).
Proof. unfold UserTermsAgreement_objects_create. by intros ->. Qed.

(** C7. On a save event of a user account (when the account has just
    been created it has no terms agreement yet), the hook returns, leaves
    the logged actions alone, and: if the event is a creation it adds
    exactly one terms agreement, for that user and with [assigned_to_dc]
    false; if the event is an update it changes nothing.  So one agreement
    is added if and only if the event is a creation. *)
Theorem create_user_terms_agreement_spec instance created db :
  (created = true -> has_agreement (User.pk instance) db = false) ->
  exists db',
    create_user_terms_agreement instance created db = (inr tt, db') /\
    logged_actions db' = logged_actions db /\
    (if created then
       exists row,
         user_terms_agreements db' = user_terms_agreements db ++ [row] /\
         UserTermsAgreement.user row = User.pk instance /\
         UserTermsAgreement.assigned_to_dc row = false
     else db' = db) /\
    (length (user_terms_agreements db') =
       S (length (user_terms_agreements db)) <-> created = true).
Proof.
  intros Hfresh. unfold create_user_terms_agreement.
  destruct created.
  - rewrite bind_run, (create_agreement_fresh _ _ (Hfresh eq_refl)).
    eexists. split; [reflexivity |]. split; [done |]. split.
    + by eexists.
    + simpl. rewrite length_app. simpl. split; [done | lia].
  - exists db. split; [done |]. split; [done |]. split; [done |].
    split; [lia | done].
Qed.

(** A creation event for a user that already has an agreement: the
    database refuses the second row and nothing is written. *)
Lemma create_user_terms_agreement_again instance db :
  has_agreement (User.pk instance) db = true ->
  create_user_terms_agreement instance true db = (inl IntegrityError, db).
Proof.
  intros Hhas. unfold create_user_terms_agreement.
  rewrite bind_run. unfold UserTermsAgreement_objects_create. by rewrite Hhas.
Qed.

(** ** The theorems at the sample data *)

Lemma calls_A_B : calls [] [fn_A; fn_B] empty_db [dict_A; dict_B] empty_db.
Proof. repeat econstructor. Qed.

Lemma needs_review_folds_in_order_witness :
  needs_review [fn_A; fn_B] [] empty_db = (inr dict_A_B, empty_db) /\
  dict_A_B !! "rec1"%string =
  Some ["missing source"%string; "no note"%string].
Proof.
  destruct (needs_review_folds_in_order [] [fn_A; fn_B] empty_db _ empty_db
              calls_A_B) as (Hrun & Hval & _).
  split; [exact Hrun |].
  apply (Hval "rec1"%string). vm_compute. set_solver.
Defined.

Lemma needs_review_keys_witness :
  exists r,
    needs_review [fn_no_source] sample_recent sample_db = (inr r, sample_db) /\
    keys r ⊆ identities sample_recent sample_db.
Proof.
  assert (calls sample_recent [fn_no_source] sample_db
            [ {[ 2 := ["no source"%string] ]} ] sample_db) as Hc.
  { repeat econstructor. }
  destruct (needs_review_keys sample_recent [fn_no_source] sample_db _
              sample_db Hc) as (r & Hrun & _ & Hsub).
  exists r. split; [exact Hrun |].
  apply Hsub. intros m Hm. apply list_elem_of_singleton in Hm as ->.
  vm_compute. set_solver.
Defined.

Lemma needs_review_scenario_witness :
  needs_review [fn_A; fn_B] sample_recent sample_db =
  (inr dict_A_B, sample_db).
Proof.
  apply (needs_review_scenario fn_A fn_B sample_recent sample_db sample_db
           sample_db); reflexivity.
Defined.

Lemma in_recent_days_default_witness :
  evaluate (in_recent_days sample_now [] None) sample_db = [recent_action] /\
  (old_action ∉ evaluate (in_recent_days sample_now [] None) sample_db) /\
  (recent_action ∈ evaluate (in_recent_days sample_now [] None) sample_db).
Proof.
  destruct (in_recent_days_default sample_now [] sample_db)
    as (Heq & _ & Hout & Hin).
  split; [rewrite Heq; reflexivity |]. split.
  - apply (Hout old_action). reflexivity.
  - apply (Hin recent_action); [| reflexivity].
    vm_compute. apply list_elem_of_further, list_elem_of_here.
Defined.

Lemma create_user_terms_agreement_spec_witness :
  exists db',
    create_user_terms_agreement alice true empty_db = (inr tt, db') /\
    user_terms_agreements db' =
    [{| UserTermsAgreement.pk := 1;
        UserTermsAgreement.user := 7;
        UserTermsAgreement.assigned_to_dc := false |}].
Proof.
  destruct (create_user_terms_agreement_spec alice true empty_db)
    as (db' & Hrun & _ & _ & _).
  { reflexivity. }
  exists db'. split; [exact Hrun |].
  vm_compute in Hrun. by inversion Hrun.
Defined.

Lemma needs_review_propagates_error_witness :
  needs_review [fn_A; fn_broken; fn_B] [] empty_db =
  (inl (Raised "ValueError"), empty_db).
Proof.
  apply needs_review_propagates_error.
  exists [fn_A], fn_broken, [fn_B], [dict_A], empty_db.
  split; [reflexivity |]. split; [| reflexivity].
  repeat econstructor.
Defined.


(** ** Further properties of the merge and of the aggregation *)

Section more_merge.
Context {K : Type} {EqK : EqDecision K} {CntK : Countable K}.
Implicit Types (a b m : gmap K (list string)) (k : K).
Implicit Types (fns : list (@reason_fn K _ _)) (self : QuerySet).
Implicit Types (results : list (gmap K (list string))) (db : Database).

Lemma get_union_disjoint a b k :
  keys a ## keys b -> get (a ∪ b) k [] = get a k [] ++ get b k [].
Proof.
  intros Hdisj. unfold get. rewrite lookup_union.
  destruct (a !! k) as [la |] eqn:Ha, (b !! k) as [lb |] eqn:Hb; simpl.
  - exfalso. apply (Hdisj k); unfold keys; apply elem_of_dom; by eexists.
  - by rewrite app_nil_r.
  - done.
  - done.
Qed.

(** X1. On dicts with no key in common the merge is the plain union of
    the two dicts, and the order of the arguments does not matter. *)
Theorem merge_dicts_disjoint a b :
  keys a ## keys b ->
  merge_dicts_with_list_values a b = a ∪ b /\
  merge_dicts_with_list_values a b = merge_dicts_with_list_values b a.
Proof.
  intros Hdisj.
  assert (forall x y : gmap K (list string),
            keys x ## keys y -> merge_dicts_with_list_values x y = x ∪ y)
    as Hunion.
  { intros x y Hxy. apply dict_eq.
    - rewrite merge_keys. unfold keys. by rewrite dom_union_L.
    - intros k. by rewrite merge_get, get_union_disjoint. }
  split; [by apply Hunion |].
  rewrite (Hunion a b Hdisj), (Hunion b a) by done.
  apply map_union_comm. by apply map_disjoint_dom.
Qed.

Lemma list_comprehension_app self fns1 fns2 db :
  list_comprehension (fun f : reason_fn => f self) (fns1 ++ fns2) db =
  match list_comprehension (fun f : reason_fn => f self) fns1 db with
  | (inr r1, db1) =>
      match list_comprehension (fun f : reason_fn => f self) fns2 db1 with
      | (inr r2, db2) => (inr (r1 ++ r2), db2)
      | (inl e, db2) => (inl e, db2)
      end
  | (inl e, db1) => (inl e, db1)
  end.
Proof.
  revert db. induction fns1 as [| f fns1 IH]; intros db.
  - simpl app. change (list_comprehension _ [] db) with
      (@inr Exception (list (gmap K (list string))) [], db).
    cbv beta iota.
    by destruct (list_comprehension _ fns2 db) as [[e | r2] db2].
  - simpl app. rewrite !list_comprehension_cons.
    destruct (f self db) as [[e | m] db1]; [done |].
    rewrite IH.
    destruct (list_comprehension _ fns1 db1) as [[e | r1] db2]; [done |].
    by destruct (list_comprehension _ fns2 db2) as [[e | r2] db3].
Qed.

(** X2. With a single reason-function the aggregation is that function:
    same dict, same error, same database.  With none it returns the empty
    dict and leaves the database alone. *)
Theorem needs_review_single (f : @reason_fn K _ _) self db :
  needs_review [f] self db = f self db /\
  needs_review (K := K) [] self db = (inr ∅, db).
Proof.
  split; [| done].
  rewrite needs_review_run, list_comprehension_cons.
  destruct (f self db) as [[e | m] db1]; [done |].
  simpl. by rewrite merge_empty_l.
Qed.

(** X3. Aggregating with the list [fns1 ++ fns2] is aggregating with
    [fns1], then with [fns2] in the database the first run left, and
    merging the two dicts; if the first run raises, the second does not
    take place. *)
Theorem needs_review_app self fns1 fns2 db :
  needs_review (fns1 ++ fns2) self db =
  match needs_review fns1 self db with
  | (inr r1, db1) =>
      match needs_review fns2 self db1 with
      | (inr r2, db2) => (inr (merge_dicts_with_list_values r1 r2), db2)
      | (inl e, db2) => (inl e, db2)
      end
  | (inl e, db1) => (inl e, db1)
  end.
Proof.
  rewrite !needs_review_run, list_comprehension_app.
  destruct (list_comprehension _ fns1 db) as [[e | r1] db1]; [done |].
  rewrite needs_review_run.
  destruct (list_comprehension _ fns2 db1) as [[e | r2] db2]; [done |].
  by rewrite reduce_app, reduce_merge_init.
Qed.

Lemma reasons_in_order_nil results k :
  reasons_in_order results k = [] <->
  forall m, m ∈ results -> get m k [] = [].
Proof.
  induction results as [| m results IH].
  - split; [| done]. intros _ m Hm. by apply elem_of_nil in Hm.
  - rewrite reasons_in_order_cons. split.
    + intros Hnil. apply app_eq_nil in Hnil as [Hm Hrest].
      intros m' Hm'. apply elem_of_cons in Hm' as [-> | Hm']; [done |].
      by apply IH.
    + intros Hall. rewrite (Hall m) by apply list_elem_of_here.
      simpl. apply IH. intros m' Hm'. apply Hall.
      by apply list_elem_of_further.
Qed.

(** X4. A key of the aggregated dict may have no reason at all: its
    value is the empty list exactly when some function returned the key
    and every function that returned it gave it the empty list.  The
    aggregation does not drop such a key. *)
Theorem needs_review_empty_reasons self fns db results db' :
  calls self fns db results db' ->
  exists r,
    needs_review fns self db = (inr r, db') /\
    forall k,
      r !! k = Some [] <->
      (exists m, m ∈ results /\ k ∈ keys m) /\
      (forall m, m ∈ results -> get m k [] = []).
Proof.
  intros Hc. eexists. split; [by apply needs_review_calls |].
  intros k.
  rewrite <- reasons_in_order_nil.
  pose proof (reduce_merge_keys results ∅ k) as Hkeys.
  pose proof (reduce_merge_get results ∅ k) as Hget.
  rewrite keys_empty in Hkeys. rewrite (get_empty k []) in Hget.
  simpl in Hget.
  split.
  - intros Hk. split.
    + destruct (proj1 Hkeys) as [Hin | Hex]; [| by apply not_elem_of_empty in Hin | done].
      unfold keys. apply elem_of_dom. by eexists.
    + rewrite <- Hget. by rewrite (get_Some _ _ _ _ Hk).
  - intros [Hex Hnil].
    assert (k ∈ keys (reduce merge_dicts_with_list_values results ∅)) as Hin.
    { apply Hkeys. by right. }
    rewrite (get_in_keys _ k [] Hin). by rewrite Hget, Hnil.
Qed.

End more_merge.

(** ** Further properties of the trailing window *)

Lemma filter_sublist_impl {A} (p q : A -> bool) (l : list A) :
  (forall x, p x = true -> q x = true) ->
  sublist (List.filter p l) (List.filter q l).
Proof.
  intros Hpq. induction l as [| x l IH]; simpl; [constructor |].
  destruct (p x) eqn:Hp.
  - rewrite (Hpq x Hp). by constructor.
  - destruct (q x); [by constructor | done].
Qed.

Lemma filter_sublist_self {A} (p : A -> bool) (l : list A) :
  sublist (List.filter p l) l.
Proof.
  induction l as [| x l IH]; simpl; [constructor |].
  destruct (p x); by constructor.
Qed.


(** The filter adds no row and reorders none. *)
Lemma window_sublist now self days db :
  sublist (evaluate (in_recent_days now self days) db) (evaluate self db) /\
  identities (in_recent_days now self days) db ⊆ identities self db.
Proof.
  assert (sublist (evaluate (in_recent_days now self days) db)
                  (evaluate self db)) as Hsub.
  { rewrite evaluate_in_recent_days. apply filter_sublist_self. }
  split; [done |].
  unfold identities. intros k Hk.
  apply elem_of_list_to_set in Hk. apply elem_of_list_to_set.
  apply list_elem_of_fmap in Hk as (r & -> & Hr).
  apply list_elem_of_fmap. exists r. split; [done |].
  by apply (elem_of_sublist _ _ _ Hr).
Qed.

(** A longer window keeps more. *)
Lemma window_mono now self (d1 d2 : Z) db :
  d1 <= d2 ->
  sublist (evaluate (in_recent_days now self (Some d1)) db)
          (evaluate (in_recent_days now self (Some d2)) db).
Proof.
  intros Hle. rewrite !evaluate_in_recent_days. apply filter_sublist_impl.
  intros r. rewrite !Z.leb_le. simpl. unfold timedelta. lia.
Qed.


(** A window that opens after [now]. *)
Lemma window_negative now self (days : Z) db :
  days < 0 ->
  (forall r, r ∈ evaluate self db -> LoggedAction.created r <= now) ->
  evaluate (in_recent_days now self (Some days)) db = [].
Proof.
  intros Hneg Hpast.
  destruct (evaluate (in_recent_days now self (Some days)) db)
    as [| r rows] eqn:Hrows; [done |].
  assert (r ∈ evaluate (in_recent_days now self (Some days)) db) as Hr.
  { rewrite Hrows. apply list_elem_of_here. }
  apply elem_of_in_recent_days in Hr as [Hin Hle].
  apply Hpast in Hin. simpl in Hle. unfold timedelta in Hle. lia.
Qed.

(** When the date arithmetic stays in range, and only then, the method
    returns, and it returns the queryset of [in_recent_days]. *)
Lemma in_recent_days_returns now self days qs :
  LoggedActionQuerySet_in_recent_days now self days = inr qs <->
  (-999999999 <= default 5 days <= 999999999) /\
  (0 <= now - timedelta (default 5 days) <= datetime_max) /\
  qs = in_recent_days now self days.
Proof.
  unfold LoggedActionQuerySet_in_recent_days, in_recent_days.
  unfold timedelta_of_days, datetime_sub.
  destruct ((-999999999 <=? default 5 days) && (default 5 days <=? 999999999))
    eqn:Hdays.
  - apply andb_true_iff in Hdays as [Hlo Hhi].
    apply Z.leb_le in Hlo, Hhi.
    rewrite exn_bind_run.
    destruct ((0 <=? now - timedelta (default 5 days)) &&
              (now - timedelta (default 5 days) <=? datetime_max)) eqn:Hsub.
    + apply andb_true_iff in Hsub as [Hlo' Hhi'].
      apply Z.leb_le in Hlo', Hhi'.
      rewrite exn_bind_run. split.
      * intros [= <-]. by repeat split.
      * by intros (_ & _ & ->).
    + rewrite exn_bind_run. split; [done |].
      intros (_ & [Hlo' Hhi'] & _).
      apply andb_false_iff in Hsub as [Hsub | Hsub];
        apply Z.leb_gt in Hsub; lia.
  - rewrite exn_bind_run. split; [done |].
    intros ([Hlo Hhi] & _).
    apply andb_false_iff in Hdays as [Hdays | Hdays];
      apply Z.leb_gt in Hdays; lia.
Qed.

(** X5. Whenever [in_recent_days] returns (for any number of days, also
    zero or negative, for which the date arithmetic does not overflow),
    the rows it keeps are rows of the queryset it was called on, in the
    same order: the filter adds no row and reorders none, so the
    identities it keeps are identities of that queryset. *)
Theorem in_recent_days_sublist now self days qs db :
  LoggedActionQuerySet_in_recent_days now self days = inr qs ->
  sublist (evaluate qs db) (evaluate self db) /\
  identities qs db ⊆ identities self db.
Proof.
  intros Hret. apply in_recent_days_returns in Hret as (_ & _ & ->).
  apply window_sublist.
Qed.

(** X6. A longer window keeps more: with the same clock, when both calls
    return and [d1 <= d2], the rows kept for [d1] days are among the rows
    kept for [d2] days. *)
Theorem in_recent_days_mono now self (d1 d2 : Z) q1 q2 db :
  LoggedActionQuerySet_in_recent_days now self (Some d1) = inr q1 ->
  LoggedActionQuerySet_in_recent_days now self (Some d2) = inr q2 ->
  d1 <= d2 ->
  sublist (evaluate q1 db) (evaluate q2 db).
Proof.
  intros Hret1 Hret2 Hle.
  apply in_recent_days_returns in Hret1 as (_ & _ & ->).
  apply in_recent_days_returns in Hret2 as (_ & _ & ->).
  by apply window_mono.
Qed.


(** X8. With a negative number of days the bound lies after [now]: when
    the call returns and no row of the queryset was created after [now],
    nothing is kept. *)
Theorem in_recent_days_negative now self (days : Z) qs db :
  days < 0 ->
  LoggedActionQuerySet_in_recent_days now self (Some days) = inr qs ->
  (forall r, r ∈ evaluate self db -> LoggedAction.created r <= now) ->
  evaluate qs db = [].
Proof.
  intros Hneg Hret Hpast.
  apply in_recent_days_returns in Hret as (_ & _ & ->).
  by apply window_negative.
Qed.

(** ** Further properties of the hook on saving a user *)

(** What the hook does, in each of its three cases. *)
Lemma create_user_terms_agreement_cases instance created db :
  (created = false /\
   create_user_terms_agreement instance created db = (inr tt, db)) \/
  (created = true /\ has_agreement (User.pk instance) db = true /\
   create_user_terms_agreement instance created db =
   (inl IntegrityError, db)) \/
  (created = true /\ has_agreement (User.pk instance) db = false /\
   create_user_terms_agreement instance created db =
   (inr tt,
    {| logged_actions := logged_actions db;
       user_terms_agreements :=
         user_terms_agreements db ++
         [{| UserTermsAgreement.pk := next_pk (user_terms_agreements db);
             UserTermsAgreement.user := User.pk instance;
             UserTermsAgreement.assigned_to_dc := false |}] |})).
Proof.
  destruct created; [| by left]. right.
  unfold create_user_terms_agreement. rewrite bind_run.
  destruct (has_agreement (User.pk instance) db) eqn:Hhas.
  - left. unfold UserTermsAgreement_objects_create. by rewrite Hhas.
  - right. by rewrite (create_agreement_fresh _ _ Hhas).
Qed.

(** X9. The agreement of a user is created once: after a creation event
    on which the hook returned, a second creation event for the same user
    makes the hook raise [IntegrityError] and write nothing, and an update
    event is a no-op. *)
Theorem create_user_terms_agreement_once instance db db1 :
  create_user_terms_agreement instance true db = (inr tt, db1) ->
  create_user_terms_agreement instance true db1 = (inl IntegrityError, db1) /\
  create_user_terms_agreement instance false db1 = (inr tt, db1).
Proof.
  intros Hrun. split; [| done].
  apply create_user_terms_agreement_again.
  destruct (create_user_terms_agreement_cases instance true db)
    as [[Hc _] | [(_ & _ & Hraise) | (_ & _ & Hret)]]; [done | congruence |].
  rewrite Hret in Hrun. inversion Hrun; subst db1.
  unfold has_agreement. simpl. rewrite existsb_app. simpl.
  rewrite Z.eqb_refl. by rewrite orb_true_r.
Qed.

(** X10. Whenever the hook returns, it has left the logged actions alone
    and kept every agreement there was, unchanged and in place; on an
    update it has added nothing, on a creation it has added exactly one
    row, for the saved user and with [assigned_to_dc] false, and the user
    had no agreement before. *)
Theorem create_user_terms_agreement_frame instance created db db' :
  create_user_terms_agreement instance created db = (inr tt, db') ->
  logged_actions db' = logged_actions db /\
  (exists new,
     user_terms_agreements db' = user_terms_agreements db ++ new /\
     length new = (if created then 1 else 0)%nat /\
     (forall row, row ∈ new ->
        UserTermsAgreement.user row = User.pk instance /\
        UserTermsAgreement.assigned_to_dc row = false)) /\
  (created = true -> has_agreement (User.pk instance) db = false).
Proof.
  intros Hrun.
  destruct (create_user_terms_agreement_cases instance created db)
    as [[-> Hret] | [(_ & _ & Hraise) | (-> & Hfresh & Hret)]];
    [| congruence |]; rewrite Hret in Hrun; inversion Hrun; subst db'; simpl.
  - split; [done |]. split; [| done].
    exists []. rewrite app_nil_r. split; [done |]. split; [done |].
    intros row Hrow. by apply elem_of_nil in Hrow.
  - split; [done |]. split; [| done].
    eexists. split; [done |]. split; [done |].
    intros row Hrow. by apply list_elem_of_singleton in Hrow as ->.
Qed.

(** X12. After a creation event on which the hook returned, the saved
    user has an agreement; and an event on which the hook returned has not
    changed whether any other user has one. *)
Theorem create_user_terms_agreement_has_agreement instance created db db' :
  create_user_terms_agreement instance created db = (inr tt, db') ->
  (created = true -> has_agreement (User.pk instance) db' = true) /\
  (forall other,
     other <> User.pk instance ->
     has_agreement other db' = has_agreement other db).
Proof.
  intros Hrun.
  destruct (create_user_terms_agreement_cases instance created db)
    as [[-> Hret] | [(_ & _ & Hraise) | (-> & Hfresh & Hret)]];
    [| congruence |]; rewrite Hret in Hrun; inversion Hrun; subst db'.
  - split; [done | done].
  - split.
    + intros _. unfold has_agreement. simpl. rewrite existsb_app. simpl.
      rewrite Z.eqb_refl. by rewrite orb_true_r.
    + intros other Hother.
      unfold has_agreement. simpl. rewrite existsb_app. simpl.
      assert ((User.pk instance =? other) = false) as -> by by apply Z.eqb_neq.
      by rewrite !orb_false_r.
Qed.

(** ** The subject of a logged action *)

Lemma string_app_assoc (s1 s2 s3 : string) :
  (s1 +:+ s2) +:+ s3 = s1 +:+ (s2 +:+ s3).
Proof.
  induction s1 as [| c s1 IH]; [done |].
  change (String c (s1 +:+ s2) +:+ s3 = String c (s1 +:+ (s2 +:+ s3))).
  change (String c ((s1 +:+ s2) +:+ s3) = String c (s1 +:+ (s2 +:+ s3))).
  by rewrite IH.
Qed.

(** The text of a link, closed by the end tag. *)
Lemma link_text_close (text inner : string) :
  (text +:+ " (" +:+ inner +:+ ")") +:+ "</a>" =
  text +:+ " (" +:+ inner +:+ ")</a>".
Proof.
  rewrite (string_app_assoc text (" (" +:+ inner +:+ ")") "</a>").
  rewrite (string_app_assoc " (" (inner +:+ ")") "</a>").
  rewrite (string_app_assoc inner ")" "</a>").
  reflexivity.
Qed.

(** Both sides raise the same exception, or neither raises. *)
Ltac same_error := split; intros Heq; inversion Heq; reflexivity.

Section subject_properties.
Context (reverse : string -> gmap string kwarg -> Exception + string).
Context (slugify : string -> string).
Context (post_of : Z -> Post.t) (person_of : Z -> Person.t).


(** The URL of an action on a post, in terms of the post's extra row. *)
Lemma subject_url_post self post_id :
  LoggedAction.post self = Some post_id ->
  subject_url reverse slugify post_of person_of self =
  match post_extra (post_of post_id) with
  | inl e => inl e
  | inr extra =>
      match elections_get_current (PostExtra.elections extra) with
      | inl e => inl e
      | inr election =>
          match reverse "constituency"
                  {[ "election"%string := kw_str (Election.slug election);
                     "post_id"%string := kw_str (PostExtra.slug extra);
                     "ignored_slug"%string :=
                       kw_str (slugify (PostExtra.short_label extra)) ]} with
          | inl e => inl e
          | inr url => inr (Some url)
          end
      end
  end.
Proof.
  intros Hpost. unfold subject_url. rewrite Hpost, exn_bind_run.
  destruct (post_extra (post_of post_id)) as [e | extra]; [done |].
  rewrite exn_bind_run.
  destruct (elections_get_current _) as [e | election]; [done |].
  rewrite exn_bind_run. by destruct (reverse _ _).
Qed.

Lemma subject_url_person self person_id :
  LoggedAction.post self = None ->
  LoggedAction.person self = Some person_id ->
  subject_url reverse slugify post_of person_of self =
  match reverse "person-view"
          {[ "person_id"%string :=
               kw_int (Person.id (person_of person_id)) ]} with
  | inl e => inl e
  | inr url => inr (Some url)
  end.
Proof.
  intros Hpost Hperson. unfold subject_url.
  rewrite Hpost, Hperson, exn_bind_run. by destruct (reverse _ _).
Qed.

Lemma subject_url_nothing self :
  LoggedAction.post self = None -> LoggedAction.person self = None ->
  subject_url reverse slugify post_of person_of self = inr None.
Proof. intros Hpost Hperson. unfold subject_url. by rewrite Hpost, Hperson. Qed.

Lemma subject_html_post self post_id :
  LoggedAction.post self = Some post_id ->
  subject_html reverse slugify post_of person_of self =
  match subject_url reverse slugify post_of person_of self with
  | inl e => inl e
  | inr url =>
      match post_extra (post_of post_id) with
      | inl e => inl e
      | inr extra =>
          inr ("<a href=" +:+ dquote +:+ format_value url +:+ dquote +:+
               ">" +:+ PostExtra.short_label extra +:+ " (" +:+
               PostExtra.slug extra +:+ ")</a>")
      end
  end.
Proof.
  intros Hpost. unfold subject_html. rewrite Hpost, exn_bind_run.
  destruct (subject_url reverse slugify post_of person_of self) as [e | url]; [done |].
  rewrite exn_bind_run. by destruct (post_extra _).
Qed.

Lemma subject_html_person self person_id :
  LoggedAction.post self = None ->
  LoggedAction.person self = Some person_id ->
  subject_html reverse slugify post_of person_of self =
  match subject_url reverse slugify post_of person_of self with
  | inl e => inl e
  | inr url =>
      inr ("<a href=" +:+ dquote +:+ format_value url +:+ dquote +:+
           ">" +:+ Person.name (person_of person_id) +:+ " (" +:+
           pretty (Person.id (person_of person_id)) +:+ ")</a>")
  end.
Proof.
  intros Hpost Hperson. unfold subject_html.
  rewrite Hpost, Hperson, exn_bind_run. by destruct (subject_url reverse slugify post_of person_of self).
Qed.

Lemma subject_html_nothing self :
  LoggedAction.post self = None -> LoggedAction.person self = None ->
  subject_html reverse slugify post_of person_of self = inr ""%string.
Proof. intros Hpost Hperson. unfold subject_html. by rewrite Hpost, Hperson. Qed.

(** X13. [subject_url] returns [None] exactly when the action has neither
    a post nor a person, and [subject_html] returns the empty string in
    exactly that case: with a post or a person they return a URL and a
    link, or raise. *)
Theorem subject_nothing self :
  (subject_url reverse slugify post_of person_of self = inr None <->
   LoggedAction.post self = None /\ LoggedAction.person self = None) /\
  (subject_html reverse slugify post_of person_of self = inr ""%string <->
   LoggedAction.post self = None /\ LoggedAction.person self = None).
Proof.
  destruct (LoggedAction.post self) as [post_id |] eqn:Hpost.
  - rewrite (subject_html_post _ _ Hpost), (subject_url_post _ _ Hpost).
    split; (split; [| by intros [? _]]); intros Heq; exfalso.
    + destruct (post_extra _) as [? | extra]; [done |].
      destruct (elections_get_current _); [done |].
      by destruct (reverse _ _).
    + destruct (post_extra _) as [? | extra]; [done |].
      destruct (elections_get_current _); [done |].
      by destruct (reverse _ _).
  - destruct (LoggedAction.person self) as [person_id |] eqn:Hperson.
    + rewrite (subject_html_person _ _ Hpost Hperson),
              (subject_url_person _ _ Hpost Hperson).
      split; (split; [| by intros [_ ?]]); intros Heq; exfalso;
        by destruct (reverse _ _).
    + rewrite (subject_html_nothing _ Hpost Hperson),
              (subject_url_nothing _ Hpost Hperson). done.
Qed.

(** X14. [subject_html] raises exactly when [subject_url] raises, and
    then it raises the same exception. *)
Theorem subject_html_raises self e :
  subject_html reverse slugify post_of person_of self = inl e <-> subject_url reverse slugify post_of person_of self = inl e.
Proof.
  destruct (LoggedAction.post self) as [post_id |] eqn:Hpost.
  - rewrite (subject_html_post _ _ Hpost), (subject_url_post _ _ Hpost).
    destruct (post_extra _) as [? | extra]; [same_error |].
    destruct (elections_get_current _); [same_error |].
    destruct (reverse _ _); same_error.
  - destruct (LoggedAction.person self) as [person_id |] eqn:Hperson.
    + rewrite (subject_html_person _ _ Hpost Hperson),
              (subject_url_person _ _ Hpost Hperson).
      destruct (reverse _ _); same_error.
    + rewrite (subject_html_nothing _ Hpost Hperson),
              (subject_url_nothing _ Hpost Hperson). same_error.
Qed.

(** X15. The post comes first: two actions on the same post have the
    same URL and the same link, whatever their persons and their other
    fields. *)
Theorem subject_post_first self self' post_id :
  LoggedAction.post self = Some post_id ->
  LoggedAction.post self' = Some post_id ->
  subject_url reverse slugify post_of person_of self = subject_url reverse slugify post_of person_of self' /\ subject_html reverse slugify post_of person_of self = subject_html reverse slugify post_of person_of self'.
Proof.
  intros Hpost Hpost'.
  rewrite (subject_html_post _ _ Hpost), (subject_html_post _ _ Hpost').
  by rewrite (subject_url_post _ _ Hpost), (subject_url_post _ _ Hpost').
Qed.

(** X16. For an action on a post, the URL needs exactly one current
    election of the post: with none [subject_url] and [subject_html]
    raise [DoesNotExist], with several they raise
    [MultipleObjectsReturned]. *)
Theorem subject_url_current_election self post_id extra :
  LoggedAction.post self = Some post_id ->
  Post.extra (post_of post_id) = Some extra ->
  (List.filter Election.current (PostExtra.elections extra) = [] ->
   subject_url reverse slugify post_of person_of self = inl (Raised "DoesNotExist") /\
   subject_html reverse slugify post_of person_of self = inl (Raised "DoesNotExist")) /\
  ((2 <= length (List.filter Election.current (PostExtra.elections extra)))%nat ->
   subject_url reverse slugify post_of person_of self = inl (Raised "MultipleObjectsReturned") /\
   subject_html reverse slugify post_of person_of self = inl (Raised "MultipleObjectsReturned")) /\
  (forall url,
     subject_url reverse slugify post_of person_of self = inr url ->
     exists election,
       List.filter Election.current (PostExtra.elections extra) = [election]).
Proof.
  intros Hpost Hextra.
  rewrite (subject_html_post _ _ Hpost), (subject_url_post _ _ Hpost).
  unfold post_extra. rewrite Hextra. unfold elections_get_current.
  destruct (List.filter Election.current (PostExtra.elections extra))
    as [| election [| election' rest]]; simpl.
  - split; [done |]. split; [lia |]. done.
  - split; [done |]. split; [lia |]. intros url _. by exists election.
  - split; [done |]. split; [done |]. done.
Qed.

(** X17. When [subject_url] returns a URL, the link [subject_html]
    returns points to that URL. *)
Theorem subject_html_links_to_url self url :
  subject_url reverse slugify post_of person_of self = inr (Some url) ->
  exists text,
    subject_html reverse slugify post_of person_of self =
    inr ("<a href=" +:+ dquote +:+ url +:+ dquote +:+ ">" +:+ text +:+ "</a>").
Proof.
  intros Hurl.
  destruct (LoggedAction.post self) as [post_id |] eqn:Hpost.
  - rewrite (subject_html_post _ _ Hpost), Hurl.
    rewrite (subject_url_post _ _ Hpost) in Hurl.
    destruct (post_extra _) as [? | extra]; [done |].
    exists (PostExtra.short_label extra +:+ " (" +:+
            PostExtra.slug extra +:+ ")").
    by rewrite link_text_close.
  - destruct (LoggedAction.person self) as [person_id |] eqn:Hperson.
    + rewrite (subject_html_person _ _ Hpost Hperson), Hurl.
      exists (Person.name (person_of person_id) +:+ " (" +:+
              pretty (Person.id (person_of person_id)) +:+ ")").
      by rewrite link_text_close.
    + by rewrite (subject_url_nothing _ Hpost Hperson) in Hurl.
Qed.

End subject_properties.

(** ** The further properties at the sample data *)

Lemma merge_dicts_disjoint_witness :
  merge_dicts_with_list_values dict_A dict_C = dict_A ∪ dict_C /\
  merge_dicts_with_list_values dict_A dict_C =
  merge_dicts_with_list_values dict_C dict_A.
Proof.
  apply (merge_dicts_disjoint dict_A dict_C).
  unfold keys, dict_A, dict_C. rewrite !dom_singleton_L.
  apply disjoint_singleton_l, not_elem_of_singleton. discriminate.
Defined.

Lemma calls_A_E : calls [] [fn_A; fn_E] empty_db [dict_A; dict_E] empty_db.
Proof. repeat econstructor. Qed.

Lemma needs_review_empty_reasons_witness :
  exists r,
    needs_review [fn_A; fn_E] [] empty_db = (inr r, empty_db) /\
    r !! "rec4"%string = Some [] /\
    r !! "rec1"%string <> Some [].
Proof.
  destruct (needs_review_empty_reasons [] [fn_A; fn_E] empty_db
              [dict_A; dict_E] empty_db calls_A_E) as (r & Hrun & Hempty).
  exists r. split; [exact Hrun |]. split.
  - apply Hempty. split.
    + exists dict_E. split; [apply list_elem_of_further, list_elem_of_here |].
      unfold keys, dict_E. rewrite dom_singleton_L.
      by apply elem_of_singleton.
    + intros m Hm. apply elem_of_cons in Hm as [-> | Hm]; [reflexivity |].
      by apply list_elem_of_singleton in Hm as ->.
  - intros Hnil. apply Hempty in Hnil as [_ Hall].
    specialize (Hall dict_A (list_elem_of_here _ _)). discriminate Hall.
Defined.

Lemma in_recent_days_sublist_witness :
  sublist (evaluate (in_recent_days sample_now [] (Some 5)) sample_db)
          (evaluate [] sample_db).
Proof.
  apply (in_recent_days_sublist sample_now [] (Some 5)
           (in_recent_days sample_now [] (Some 5)) sample_db).
  reflexivity.
Defined.

Lemma in_recent_days_mono_witness :
  sublist (evaluate (in_recent_days sample_now [] (Some 5)) sample_db)
          (evaluate (in_recent_days sample_now [] (Some 7)) sample_db).
Proof.
  apply (in_recent_days_mono sample_now [] 5 7
           (in_recent_days sample_now [] (Some 5))
           (in_recent_days sample_now [] (Some 7)) sample_db);
    [reflexivity | reflexivity | lia].
Defined.


Lemma in_recent_days_negative_witness :
  evaluate (in_recent_days sample_now [] (Some (-1))) sample_db = [].
Proof.
  apply (in_recent_days_negative sample_now [] (-1)
           (in_recent_days sample_now [] (Some (-1))) sample_db);
    [lia | reflexivity |].
  intros r Hr. vm_compute in Hr.
  apply elem_of_cons in Hr as [-> | Hr]; [by vm_compute |].
  apply list_elem_of_singleton in Hr as ->. by vm_compute.
Defined.

Lemma create_user_terms_agreement_once_witness :
  create_user_terms_agreement alice true
    (create_user_terms_agreement alice true empty_db).2 =
  (inl IntegrityError, (create_user_terms_agreement alice true empty_db).2).
Proof.
  apply (create_user_terms_agreement_once alice empty_db
           (create_user_terms_agreement alice true empty_db).2).
  reflexivity.
Defined.

Lemma create_user_terms_agreement_frame_witness :
  user_terms_agreements
    (create_user_terms_agreement bob true db_with_alice).2 =
  user_terms_agreements db_with_alice ++
  [{| UserTermsAgreement.pk := 2;
      UserTermsAgreement.user := 8;
      UserTermsAgreement.assigned_to_dc := false |}].
Proof.
  destruct (create_user_terms_agreement_frame bob true db_with_alice
              (create_user_terms_agreement bob true db_with_alice).2)
    as (_ & (new & Hnew & _ & _) & _).
  { reflexivity. }
  reflexivity.
Defined.

Lemma create_user_terms_agreement_has_agreement_witness :
  has_agreement 8 (create_user_terms_agreement bob true db_with_alice).2 =
    true /\
  has_agreement 7 (create_user_terms_agreement bob true db_with_alice).2 =
    has_agreement 7 db_with_alice.
Proof.
  destruct (create_user_terms_agreement_has_agreement bob true db_with_alice
              (create_user_terms_agreement bob true db_with_alice).2)
    as [Hhas Hother].
  { reflexivity. }
  split; [by apply Hhas | by apply Hother].
Defined.

Lemma subject_post_first_witness :
  subject_url sample_reverse sample_slugify sample_post_of sample_person_of
    post_action =
  subject_url sample_reverse sample_slugify sample_post_of sample_person_of
    other_post_action.
Proof.
  apply (subject_post_first sample_reverse sample_slugify sample_post_of
           sample_person_of post_action other_post_action 20); reflexivity.
Defined.

Lemma subject_url_current_election_witness :
  subject_url sample_reverse sample_slugify stale_post_of sample_person_of
    post_action = inl (Raised "DoesNotExist").
Proof.
  apply (subject_url_current_election sample_reverse sample_slugify
           stale_post_of sample_person_of post_action 20 stale_extra);
    reflexivity.
Defined.

Lemma subject_html_links_to_url_witness :
  exists text,
    subject_html sample_reverse sample_slugify sample_post_of sample_person_of
      person_action =
    inr ("<a href=" +:+ dquote +:+ "/person/10" +:+ dquote +:+ ">" +:+
         text +:+ "</a>").
Proof.
  apply (subject_html_links_to_url sample_reverse sample_slugify
           sample_post_of sample_person_of person_action "/person/10").
  reflexivity.
Defined.
